(** * The trio variant filter of the 1000-Genomes notebook, and the install script

    A shallow embedding of the variant-analysis cells of
    [example-files/notebooks/aws-1000genomes.ipynb] and of the installation
    script, followed by the properties of both.

    Spark dataframes are immutable collections of rows: a dataframe is a
    [list] of records and every dataframe operation builds a new list.  The
    row order of a dataframe carries no meaning in Spark; the statements below
    that compare results therefore speak about membership and permutations. *)

From stdpp Require Import base list strings gmap pretty.
From Stdlib Require Import ZArith Ascii.

#[local] Set Warnings "-clear-no-such-hyp".

Local Open Scope string_scope.
Local Open Scope Z_scope.

(** ** Data model: the columns of the genotype dataframe the notebook reads

    The columns are taken to be non-null, as the genotype schema fills them;
    the one SQL [NULL] of the pipeline is the first element of an empty
    [names] array. *)

(** The [variant] struct column; the notebook reads its [names] array. *)
Record Variant := mkVariant { names : list string }.

(** One row of [genotypes_df]: one (sample, variant site) observation. *)
Record GenotypeRecord := mkGenotype {
  sampleId : string;
  contigName : string;
  start : Z;
  end_ : Z;
  alleles : list string;
  variant : Variant
}.

(** One row of [trios_with_referenceRegion]: the columns of the row it was
    derived from, and the added [ReferenceRegion] column. *)
Record TrioRow := mkTrioRow {
  columns : GenotypeRecord;
  ReferenceRegion : string
}.

Global Instance Variant_eq_dec : EqDecision Variant.
Proof. solve_decision. Defined.
Global Instance GenotypeRecord_eq_dec : EqDecision GenotypeRecord.
Proof. solve_decision. Defined.
Global Instance TrioRow_eq_dec : EqDecision TrioRow.
Proof. solve_decision. Defined.

(** ** Column expressions *)

(** [array_contains(alleles, 'ALT')]: some element of the array is the
    string. *)
Definition array_contains (a : list string) (s : string) : Prop := s ∈ a.

Global Instance array_contains_dec a s : Decision (array_contains a s).
Proof. unfold array_contains. apply _. Defined.

(** [variant.names[0]]: the first element of the array, and SQL [NULL] (here
    [None]) when the array is empty. *)
Definition names0 (r : GenotypeRecord) : option string := names (variant r) !! 0%nat.

(** [col.isin(values)]: SQL [IN].  A [NULL] column value is never in the
    list, and a [NULL] in the list never matches; in both cases the
    predicate is not true and [filter] drops the row. *)
Definition isin (x : option string) (values : list (option string)) : Prop :=
  match x with
  | Some s => Some s ∈ values
  | None => False
  end.

Global Instance isin_dec x values : Decision (isin x values).
Proof. destruct x; simpl; apply _. Defined.

(** [sf.concat(sf.col('contigName'), sf.lit(':'), sf.col('start'),
    sf.lit('-'), sf.col('end'))]: the integers are cast to their decimal
    representation. *)
Definition referenceRegion_of (r : GenotypeRecord) : string :=
  contigName r +:+ ":" +:+ pretty (start r) +:+ "-" +:+ pretty (end_ r).

(** ** Dataframe operations of the variant-analysis cells *)

(** [genotypes_df.filter(genotypes_df["sampleId"].isin(IDs))] *)
Definition filter_trio (IDs : list string) (genotypes_df : list GenotypeRecord)
  : list GenotypeRecord :=
  filter (λ r, sampleId r ∈ IDs) genotypes_df.

(** [trio_df.withColumn('ReferenceRegion', ...)] *)
Definition withColumn_ReferenceRegion (trio_df : list GenotypeRecord) : list TrioRow :=
  (λ r, mkTrioRow r (referenceRegion_of r)) <$> trio_df.

(** The [WHERE] clause of the child query:
    [array_contains(alleles, 'ALT') AND sampleId == 'NA19685']. *)
Definition child_where (t : TrioRow) : Prop :=
  array_contains (alleles (columns t)) "ALT" ∧ sampleId (columns t) = "NA19685".

Global Instance child_where_dec t : Decision (child_where t).
Proof. unfold child_where. apply _. Defined.

(** [SELECT variant.names[0] AS snp FROM trios WHERE ...] *)
Definition sql_alternate_variant_sites (trios : list TrioRow) : list (option string) :=
  (λ t, names0 (columns t)) <$> filter child_where trios.

(** The [WHERE] clause of the parent query, as SQL parses
    [sampleId == 'NA19661' or sampleId == 'NA19660' AND
     !array_contains(alleles, 'ALT')]:
    [AND] binds tighter than [OR], so the negated [array_contains] belongs to
    the second comparison only. *)
Definition parent_where (t : TrioRow) : Prop :=
  sampleId (columns t) = "NA19661"
  ∨ (sampleId (columns t) = "NA19660" ∧ ¬ array_contains (alleles (columns t)) "ALT").

Global Instance parent_where_dec t : Decision (parent_where t).
Proof. unfold parent_where. apply _. Defined.

(** [SELECT * FROM trios WHERE ...] *)
Definition sql_filtered1 (trios : list TrioRow) : list TrioRow :=
  filter parent_where trios.

(** [filtered1.filter(filtered1["variant.names"][0].isin(collected_sites))] *)
Definition filter_sites (collected_sites : list (option string)) (filtered1 : list TrioRow)
  : list TrioRow :=
  filter (λ t, isin (names0 (columns t)) collected_sites) filtered1.

(** [df.groupBy("variant.names").count().collect()]: one row per distinct
    value of the whole [names] array, with the number of rows that carry it.
    Spark leaves the order of the groups open; the model lists each group at
    the position of the last row that carries its key. *)
Definition groupBy_names_count (df : list TrioRow) : list (list string * nat) :=
  let keys := (λ t, names (variant (columns t))) <$> df in
  (λ k, (k, length (filter (k =.) keys))) <$> remove_dups keys.

(** [snp_names = map(lambda x: x.names, snp_counts)] and
    [[item for sublist in snp_names for item in sublist]] *)
Definition snp_names_of (snp_counts : list (list string * nat)) : list (list string) :=
  fst <$> snp_counts.

Definition flatten (snp_names : list (list string)) : list string :=
  mjoin snp_names.

(** ** The pipeline from [genotypes_df] to [denovo_snps] *)

(** The trio of the notebook: the child first, then the two parents. *)
Definition IDs : list string := ["NA19685"; "NA19661"; "NA19660"].

Definition trios_of (ids : list string) (genotypes_df : list GenotypeRecord) : list TrioRow :=
  withColumn_ReferenceRegion (filter_trio ids genotypes_df).

Definition collected_sites_of (ids : list string) (genotypes_df : list GenotypeRecord)
  : list (option string) :=
  sql_alternate_variant_sites (trios_of ids genotypes_df).

Definition filtered2_of (ids : list string) (genotypes_df : list GenotypeRecord)
  : list TrioRow :=
  filter_sites (collected_sites_of ids genotypes_df) (sql_filtered1 (trios_of ids genotypes_df)).

Definition denovo_snps_of (ids : list string) (genotypes_df : list GenotypeRecord)
  : list string :=
  flatten (snp_names_of (groupBy_names_count (filtered2_of ids genotypes_df))).

(** The pipeline with the notebook's trio. *)
Definition findDenovoCandidates (genotypes_df : list GenotypeRecord) : list string :=
  denovo_snps_of IDs genotypes_df.

(** ** The notebook kernel: Python globals and the Spark session

    The cells of the notebook communicate through the Python globals and
    through the Spark session (its temporary views and its storage of cached
    dataframes).  A cell is a computation on that state which either yields
    a value and a new state or raises an exception. *)

Inductive value :=
| VStrings (l : list string)
| VGenotypes (df : list GenotypeRecord)
| VTrios (df : list TrioRow)
| VSites (l : list (option string))
| VCounts (rows : list (list string * nat))
| VNameLists (l : list (list string)).

Record Kernel := mkKernel {
  globals : gmap string value;
  tempViews : gmap string (list TrioRow);
  storage : list (list GenotypeRecord)
}.

(** Exceptions are named by their Python class. *)
Definition exn := string.

Definition cell (A : Type) : Type := Kernel → exn + (A * Kernel).

Global Instance cell_ret : MRet cell := λ A a k, inr (a, k).
Global Instance cell_bind : MBind cell := λ A B f c k,
  match c k with
  | inl e => inl e
  | inr (a, k') => f a k'
  end.
Global Instance cell_throw : MThrow exn cell := λ A e _, inl e.

(** Reading a global: [NameError] when it is not bound. *)
Definition load (x : string) : cell value :=
  λ k, match globals k !! x with
       | Some v => inr (v, k)
       | None => inl "NameError"
       end.

(** [x = v] *)
Definition assign (x : string) (v : value) : cell unit :=
  λ k, inr ((), mkKernel (<[x := v]> (globals k)) (tempViews k) (storage k)).

Definition as_strings (v : value) : cell (list string) :=
  match v with VStrings l => mret l | _ => mthrow "TypeError" end.
Definition as_genotypes (v : value) : cell (list GenotypeRecord) :=
  match v with VGenotypes df => mret df | _ => mthrow "TypeError" end.
Definition as_trios (v : value) : cell (list TrioRow) :=
  match v with VTrios df => mret df | _ => mthrow "TypeError" end.
Definition as_sites (v : value) : cell (list (option string)) :=
  match v with VSites l => mret l | _ => mthrow "TypeError" end.
Definition as_counts (v : value) : cell (list (list string * nat)) :=
  match v with VCounts l => mret l | _ => mthrow "TypeError" end.
Definition as_name_lists (v : value) : cell (list (list string)) :=
  match v with VNameLists l => mret l | _ => mthrow "TypeError" end.

(** [df.cache()] and [df.unpersist()] on a genotype dataframe. *)
Definition cache (df : list GenotypeRecord) : cell unit :=
  λ k, inr ((), mkKernel (globals k) (tempViews k) (df :: storage k)).
Definition unpersist (df : list GenotypeRecord) : cell unit :=
  λ k, inr ((), mkKernel (globals k) (tempViews k) (filter (λ d, d ≠ df) (storage k))).

(** [df.createOrReplaceTempView(name)] *)
Definition createOrReplaceTempView (name : string) (df : list TrioRow) : cell unit :=
  λ k, inr ((), mkKernel (globals k) (<[name := df]> (tempViews k)) (storage k)).

(** [FROM name] in [spark.sql]: [AnalysisException] when no such view is
    registered. *)
Definition from_view (name : string) : cell (list TrioRow) :=
  λ k, match tempViews k !! name with
       | Some df => inr (df, k)
       | None => inl "AnalysisException"
       end.

(** [IDs = [...]] *)
Definition cell_IDs (ids : list string) : cell unit :=
  assign "IDs" (VStrings ids).

(** [trio_df = genotypes_df.filter(...)]; [trio_df.cache()];
    [trio_df.count()] (the count is displayed and changes nothing). *)
Definition cell_trio_df : cell unit :=
  g ← load "genotypes_df";
  genotypes_df ← as_genotypes g;
  i ← load "IDs";
  ids ← as_strings i;
  assign "trio_df" (VGenotypes (filter_trio ids genotypes_df));;
  t ← load "trio_df";
  trio_df ← as_genotypes t;
  cache trio_df.

(** [trios_with_referenceRegion = trio_df.withColumn(...)] *)
Definition cell_referenceRegion : cell unit :=
  t ← load "trio_df";
  trio_df ← as_genotypes t;
  assign "trios_with_referenceRegion" (VTrios (withColumn_ReferenceRegion trio_df)).

(** [trios_with_referenceRegion.createOrReplaceTempView("trios")] *)
Definition cell_register : cell unit :=
  t ← load "trios_with_referenceRegion";
  df ← as_trios t;
  createOrReplaceTempView "trios" df.

(** [alternate_variant_sites = spark.sql(...)];
    [collected_sites = map(lambda x: x.snp, alternate_variant_sites.collect())] *)
Definition cell_child : cell unit :=
  trios ← from_view "trios";
  assign "alternate_variant_sites" (VSites (sql_alternate_variant_sites trios));;
  a ← load "alternate_variant_sites";
  sites ← as_sites a;
  assign "collected_sites" (VSites sites).

(** [filtered1 = spark.sql(...)]; [filtered2 = filtered1.filter(...)];
    [snp_counts = filtered2.groupBy("variant.names").count().collect()] *)
Definition cell_parents : cell unit :=
  trios ← from_view "trios";
  assign "filtered1" (VTrios (sql_filtered1 trios));;
  f1 ← load "filtered1";
  filtered1 ← as_trios f1;
  c ← load "collected_sites";
  collected_sites ← as_sites c;
  assign "filtered2" (VTrios (filter_sites collected_sites filtered1));;
  f2 ← load "filtered2";
  filtered2 ← as_trios f2;
  assign "snp_counts" (VCounts (groupBy_names_count filtered2)).

(** [snp_names = map(...)]; [denovo_snps = [...]] *)
Definition cell_names : cell unit :=
  c ← load "snp_counts";
  snp_counts ← as_counts c;
  assign "snp_names" (VNameLists (snp_names_of snp_counts));;
  n ← load "snp_names";
  snp_names ← as_name_lists n;
  assign "denovo_snps" (VStrings (flatten snp_names)).

(** [trio_df.unpersist()] *)
Definition cell_unpersist : cell unit :=
  t ← load "trio_df";
  trio_df ← as_genotypes t;
  unpersist trio_df.

(** The variant-analysis cells in notebook order, from the cell that sets
    [IDs] to the cell that releases [trio_df]; [ids] is the list written in
    the first of them. *)
Definition variant_analysis (ids : list string) : cell unit :=
  cell_IDs ids;; cell_trio_df;; cell_referenceRegion;; cell_register;;
  cell_child;; cell_parents;; cell_names;; cell_unpersist.

(** A kernel right after the loading cell: only [genotypes_df] is bound. *)
Definition loaded (genotypes_df : list GenotypeRecord) : Kernel :=
  mkKernel {[ "genotypes_df" := VGenotypes genotypes_df ]} ∅ [].

(** ** The install script

    The script runs three environment checks, each of which ends the script
    with [exit 1], then two exports and the build commands.  It does not set
    [-e]: once past the checks every command runs, whatever the status of
    the one before. *)

Module Install.

(** What the script observes of the machine it runs on. *)
Record Env := mkEnv {
  (** standard output of the [python -c] probe: [Some b] when Python runs,
      [b] telling whether [sys] has the attribute [real_prefix]; [None] when
      it prints nothing *)
  python_probe : option bool;
  (** value of [$SPARK_HOME], empty when the variable is unset *)
  SPARK_HOME : string;
  (** standard output of [command -v npm], empty when there is none *)
  command_v_npm : string;
  (** the files the [-x] test accepts *)
  executable : string → bool;
  PWD : string;
  PYTHONPATH : string;
  (** standard output of [ls -1 "${SPARK_HOME}/python/lib" | grep py4j] *)
  py4j_zip : string;
  (** standard output of the [ls -1 "$ASSEMBLY_DIR" | grep ...] pipeline *)
  assembly_jar : string
}.

(** The commands that act on the machine, in the order they run. *)
Inductive command :=
| echo (line : string)
| export (name value : string)
| mvn (args : list string)
| pushd (dir : string)
| make (target : string)
| popd.

(** [INVENV=$(python -c 'import sys; print ("1" if hasattr(sys,
    "real_prefix") else "0")')] *)
Definition INVENV (e : Env) : string :=
  match python_probe e with
  | Some true => "1"
  | Some false => "0"
  | None => ""
  end.

(** The arithmetic value [[[ ... -ne ... ]]] gives to the three strings
    [INVENV] can hold; the empty string counts as zero. *)
Definition arith (s : string) : Z :=
  if decide (s = "1") then 1 else 0.

(** [[ -x "$file" ]]: never true of the empty word. *)
Definition test_x (e : Env) (file : string) : bool :=
  if decide (file = "") then false else executable e file.

Definition build_steps : list command :=
  [ mvn ["clean"; "package"; "-DskipTests"];
    pushd "mango-python"; make "prepare"; make "develop"; popd;
    pushd "mango-viz"; make "prepare"; make "develop"; popd ].

(** The script: the commands it runs and its exit status, [Some 1] from an
    [exit 1] and [None] when it runs to its end (the status is then the one
    of the last [popd]). *)
Definition script (e : Env) : list command * option Z :=
  if decide (arith (INVENV e) ≠ 1) then
    ([echo "virtualenv is not active"], Some 1)
  else if decide (SPARK_HOME e = "") then
    ([echo "You need to set SPARK_HOME"], Some 1)
  else if negb (test_x e (command_v_npm e)) then
    ([echo "You need to install node.js"], Some 1)
  else
    let ASSEMBLY_DIR := PWD e +:+ "/mango-assembly/target" in
    (([ export "PYTHONPATH"
         (SPARK_HOME e +:+ "/python:" +:+ SPARK_HOME e +:+ "/python/lib/"
            +:+ py4j_zip e +:+ ":" +:+ PYTHONPATH e);
       export "PYSPARK_SUBMIT_ARGS"
         ("--jars " +:+ ASSEMBLY_DIR +:+ "/" +:+ assembly_jar e
            +:+ " --driver-class-path " +:+ ASSEMBLY_DIR +:+ "/" +:+ assembly_jar e
            +:+ " pyspark-shell") ]
      ++ build_steps)%list, None).

(** The commands that build: [mvn] and [make]. *)
Definition is_build_step (c : command) : Prop :=
  match c with
  | mvn _ | make _ => True
  | _ => False
  end.

Global Instance is_build_step_dec c : Decision (is_build_step c).
Proof. destruct c; simpl; apply _. Defined.

(** The three environment checks, as the comments of the script name them. *)
Definition virtualenv_active (e : Env) : Prop := python_probe e = Some true.
Definition spark_home_set (e : Env) : Prop := SPARK_HOME e ≠ "".
Definition npm_installed (e : Env) : Prop :=
  command_v_npm e ≠ "" ∧ executable e (command_v_npm e) = true.

End Install.

(** Records for examples: a sample, the calls, the names, at a fixed site. *)
Definition call (sample : string) (calls names : list string) : GenotypeRecord :=
  mkGenotype sample "17" 63052580 63052581 calls (mkVariant names).

(** The sample names the two queries compare [sampleId] with. *)
Definition childId : string := "NA19685".
Definition parentIds : list string := ["NA19661"; "NA19660"].

(** The row [withColumn] derives from a record. *)
Definition row_of (r : GenotypeRecord) : TrioRow := mkTrioRow r (referenceRegion_of r).

(** Step 3 of the specification, in its words, for comparison with
    [filtered2_of]: the restricted records of one of the two parents whose
    alleles contain an ALT call and whose primary name is in the child's ALT
    set. *)
Definition parentCandidateRecords_spec (genotypes_df : list GenotypeRecord) : list TrioRow :=
  filter (λ t, sampleId (columns t) ∈ parentIds
               ∧ array_contains (alleles (columns t)) "ALT"
               ∧ isin (names0 (columns t)) (collected_sites_of IDs genotypes_df))
         (trios_of IDs genotypes_df).

(** The specification's well-formed trio, on the list the notebook calls
    [IDs]: it names the child and the two parents, each once, in any order. *)
Definition names_one_child_two_parents (ids : list string) : Prop :=
  ids ≡ₚ childId :: parentIds.

(** The characters of a string, and the shape of a decimal numeral: an
    optional minus sign and at least one decimal digit. *)
Definition chars (s : string) : list ascii := String.list_ascii_of_string s.

Definition digit (c : ascii) : Prop := c ∈ chars "0123456789".

Definition numeral (l : list ascii) : Prop :=
  ∃ sign digits, l = (sign ++ digits)%list ∧ (sign = [] ∨ sign = ["-"%char])
                 ∧ Forall digit digits ∧ digits ≠ [].

(** ** Membership in the intermediate dataframes *)

Section membership.
Context (ids : list string) (genotypes_df : list GenotypeRecord).

Lemma elem_of_trios_of t :
  t ∈ trios_of ids genotypes_df ↔
  ∃ r, t = row_of r ∧ r ∈ genotypes_df ∧ sampleId r ∈ ids.
Proof.
  unfold trios_of, withColumn_ReferenceRegion, filter_trio.
  rewrite list_elem_of_fmap. setoid_rewrite list_elem_of_filter.
  unfold row_of. naive_solver.
Qed.

Lemma elem_of_collected_sites o :
  o ∈ collected_sites_of ids genotypes_df ↔
  ∃ r, o = names0 r ∧ r ∈ genotypes_df ∧ sampleId r ∈ ids
       ∧ array_contains (alleles r) "ALT" ∧ sampleId r = childId.
Proof.
  unfold collected_sites_of, sql_alternate_variant_sites.
  rewrite list_elem_of_fmap. setoid_rewrite list_elem_of_filter.
  setoid_rewrite elem_of_trios_of. unfold child_where, childId. split.
  - intros (t & -> & [Halt Hid] & r & -> & Hr & Hin). exists r. simpl in *. done.
  - intros (r & -> & Hr & Hin & Halt & Hid). exists (row_of r). simpl.
    split_and!; try done. by exists r.
Qed.

Lemma elem_of_filtered2_of t :
  t ∈ filtered2_of ids genotypes_df ↔
  t ∈ trios_of ids genotypes_df ∧ parent_where t
  ∧ isin (names0 (columns t)) (collected_sites_of ids genotypes_df).
Proof.
  unfold filtered2_of, filter_sites, sql_filtered1.
  rewrite !list_elem_of_filter. naive_solver.
Qed.

Lemma snp_names_groupBy df :
  snp_names_of (groupBy_names_count df)
  = remove_dups ((λ t, names (variant (columns t))) <$> df).
Proof.
  unfold snp_names_of, groupBy_names_count. cbv zeta.
  rewrite <- list_fmap_compose. apply list_fmap_id.
Qed.

Lemma elem_of_denovo_snps_of n :
  n ∈ denovo_snps_of ids genotypes_df ↔
  ∃ t, t ∈ filtered2_of ids genotypes_df ∧ n ∈ names (variant (columns t)).
Proof.
  unfold denovo_snps_of, flatten. rewrite snp_names_groupBy.
  rewrite list_elem_of_join. setoid_rewrite elem_of_remove_dups.
  setoid_rewrite list_elem_of_fmap. naive_solver.
Qed.
End membership.

(** ** Running the cells *)

(** From any kernel in which [genotypes_df] is bound to a dataframe, the
    variant-analysis cells run to their end without raising; [denovo_snps]
    is then bound to the result of the pipeline, [genotypes_df] is bound as
    before, and [trio_df] is no longer in the storage. *)
Lemma variant_analysis_run ids g k :
  globals k !! "genotypes_df" = Some (VGenotypes g) →
  ∃ k', variant_analysis ids k = inr ((), k')
        ∧ globals k' !! "denovo_snps" = Some (VStrings (denovo_snps_of ids g))
        ∧ globals k' !! "genotypes_df" = Some (VGenotypes g)
        ∧ storage k' = filter (λ d, d ≠ filter_trio ids g) (filter_trio ids g :: storage k).
Proof.
  intros Hg. destruct k as [gl tv st]. simpl in Hg.
  unfold variant_analysis, cell_IDs, cell_trio_df, cell_referenceRegion, cell_register,
    cell_child, cell_parents, cell_names, cell_unpersist.
  unfold mbind, cell_bind, load, assign, from_view, cache, unpersist,
    createOrReplaceTempView. simpl.
  repeat (simplify_map_eq; simpl).
  eexists. split; [reflexivity|]. simpl.
  simplify_map_eq. done.
Qed.

Lemma loaded_genotypes_df g : globals (loaded g) !! "genotypes_df" = Some (VGenotypes g).
Proof. unfold loaded. simpl. apply lookup_singleton_eq. Qed.

(** A row that passes the parent query is a row of one of the two parents. *)
Lemma parent_where_parentIds t : parent_where t → sampleId (columns t) ∈ parentIds.
Proof.
  unfold parent_where, parentIds. intros [-> | [-> _]]; set_solver.
Qed.

(** ** Properties of the trio filter *)

(** C1, evaluated on the code.  The child carries ALT at [rs2], parent
    NA19661 carries ALT at [rs2] and parent NA19660 carries only REF there:
    a parent record of the site contains an ALT call, and the pipeline still
    reports [rs2].  The same happens when NA19661's ALT record is the only
    parent record of the site. *)
Theorem parent_alt_site_reported :
  let g := [call "NA19685" ["REF"; "ALT"] ["rs2"];
            call "NA19661" ["REF"; "ALT"] ["rs2"];
            call "NA19660" ["REF"; "REF"] ["rs2"]] in
  let p1 := call "NA19661" ["REF"; "ALT"] ["rs2"] in
  p1 ∈ g ∧ sampleId p1 ∈ parentIds ∧ array_contains (alleles p1) "ALT"
  ∧ names0 p1 = Some "rs2"
  ∧ findDenovoCandidates g = ["rs2"]
  ∧ findDenovoCandidates [call "NA19685" ["REF"; "ALT"] ["rs2"]; p1] = ["rs2"].
Proof.
  cbv zeta. split_and!; try reflexivity.
  - set_solver.
  - unfold parentIds. simpl. set_solver.
  - unfold array_contains. simpl. set_solver.
Qed.

(** C2 as stated fails: [rs1] is in the child's ALT set and the input has no
    parent-sample record at all, yet [rs1] is not reported. *)
Lemma child_only_site_not_reported :
  let g := [call "NA19685" ["REF"; "ALT"] ["rs1"]] in
  Some "rs1" ∈ collected_sites_of IDs g
  ∧ (∀ r, r ∈ g → sampleId r ∉ parentIds)
  ∧ "rs1" ∉ findDenovoCandidates g.
Proof.
  cbv zeta. split_and!.
  - compute_done.
  - intros r ->%list_elem_of_singleton. compute_done.
  - compute_done.
Qed.

(** C2, amended: a variant name that no parent-sample record of the input
    lists among its names is not in the result; in particular a name of the
    child's ALT set for which the input has no parent-sample record at all
    is left out. *)
Theorem no_parent_record_not_reported g n :
  (∀ r, r ∈ g → sampleId r ∈ parentIds → n ∉ names (variant r)) →
  n ∉ findDenovoCandidates g.
Proof.
  intros Hno. unfold findDenovoCandidates. rewrite elem_of_denovo_snps_of.
  intros (t & Ht & Hn). apply elem_of_filtered2_of in Ht as (Ht & Hp & _).
  apply elem_of_trios_of in Ht as (r & -> & Hr & _).
  apply (Hno r Hr); [|done]. by apply (parent_where_parentIds (row_of r)).
Qed.

Lemma no_parent_record_not_reported_witness :
  "rs1" ∉ findDenovoCandidates [call "NA19685" ["REF"; "ALT"] ["rs1"]].
Proof.
  apply (no_parent_record_not_reported [call "NA19685" ["REF"; "ALT"] ["rs1"]] "rs1").
  intros r ->%list_elem_of_singleton. compute_done.
Defined.

(** C3 as stated fails: the REF-only record of parent NA19660 at a site of
    the child's ALT set is in [filtered2], and is not among the records the
    specification's step 3 selects. *)
Lemma parent_ref_record_selected :
  let g := [call "NA19685" ["REF"; "ALT"] ["rs1"];
            call "NA19660" ["REF"; "REF"] ["rs1"]] in
  let t := row_of (call "NA19660" ["REF"; "REF"] ["rs1"]) in
  t ∈ filtered2_of IDs g ∧ t ∉ parentCandidateRecords_spec g.
Proof. cbv zeta. split; compute_done. Qed.

(** C3, amended: every record of [filtered2] is a restricted record of one
    of the two parents whose primary name is in the child's ALT set, and
    those of parent NA19660 contain no ALT call; every restricted record of
    a parent that contains no ALT call and whose primary name is in the
    child's ALT set is in [filtered2]. *)
Theorem filtered2_parent_records g t :
  (t ∈ filtered2_of IDs g →
     t ∈ trios_of IDs g ∧ sampleId (columns t) ∈ parentIds
     ∧ isin (names0 (columns t)) (collected_sites_of IDs g))
  ∧ (t ∈ filtered2_of IDs g → sampleId (columns t) = "NA19660" →
     ¬ array_contains (alleles (columns t)) "ALT")
  ∧ (t ∈ trios_of IDs g → sampleId (columns t) ∈ parentIds →
     ¬ array_contains (alleles (columns t)) "ALT" →
     isin (names0 (columns t)) (collected_sites_of IDs g) →
     t ∈ filtered2_of IDs g).
Proof.
  rewrite elem_of_filtered2_of. split_and!.
  - intros (Ht & Hp & Hin). auto using parent_where_parentIds.
  - intros (_ & [Hid | [_ Href]] & _) Hid'; [congruence | done].
  - intros Ht Hid Href Hin. split_and!; [done | | done].
    unfold parent_where, parentIds in *.
    apply elem_of_cons in Hid as [Hid | Hid]; [by left | right].
    apply list_elem_of_singleton in Hid. done.
Qed.

Lemma filtered2_parent_records_witness :
  row_of (call "NA19660" ["REF"; "REF"] ["rs1"])
  ∈ filtered2_of IDs [call "NA19685" ["REF"; "ALT"] ["rs1"];
                      call "NA19660" ["REF"; "REF"] ["rs1"]].
Proof.
  apply (filtered2_parent_records
           [call "NA19685" ["REF"; "ALT"] ["rs1"]; call "NA19660" ["REF"; "REF"] ["rs1"]]
           (row_of (call "NA19660" ["REF"; "REF"] ["rs1"]))); compute_done.
Defined.

(** *** The list of sample names is not validated *)

Section restriction.
Context (ids : list string) (g : list GenotypeRecord).

(** The names of [IDs] that [ids] lists. *)
Let ids' : list string := filter (.∈ ids) IDs.

(** A query whose [WHERE] clause only accepts rows of the three samples of
    [IDs] sees the same rows under [ids] and under [ids']. *)
Lemma filter_trios_restrict (P : TrioRow → Prop) `{!∀ t, Decision (P t)} :
  (∀ t, P t → sampleId (columns t) ∈ IDs) →
  filter P (trios_of ids g) = filter P (trios_of ids' g).
Proof.
  intros HP. unfold trios_of, withColumn_ReferenceRegion, filter_trio.
  induction g as [|r g' IH]; [done|].
  assert (Hagree : P (row_of r) → (sampleId r ∈ ids ↔ sampleId r ∈ ids')).
  { intros Hr%HP. unfold ids'. rewrite list_elem_of_filter. simpl in Hr. tauto. }
  rewrite !filter_cons.
  destruct (decide (P (row_of r))) as [Hr | Hr].
  - destruct (decide (sampleId r ∈ ids)) as [Hin | Hin];
      destruct (decide (sampleId r ∈ ids')) as [Hin' | Hin']; try tauto.
    rewrite !fmap_cons, !filter_cons. fold (row_of r). by rewrite IH.
  - destruct (decide (sampleId r ∈ ids)); destruct (decide (sampleId r ∈ ids'));
      rewrite ?fmap_cons, ?filter_cons; fold (row_of r);
      rewrite ?decide_False by done; done.
Qed.

Lemma child_where_IDs t : child_where t → sampleId (columns t) ∈ IDs.
Proof. intros [_ ->]. unfold IDs. set_solver. Qed.

Lemma parent_where_IDs t : parent_where t → sampleId (columns t) ∈ IDs.
Proof. intros [-> | [-> _]]; unfold IDs; set_solver. Qed.

Lemma denovo_snps_of_restrict : denovo_snps_of ids g = denovo_snps_of ids' g.
Proof.
  unfold denovo_snps_of, filtered2_of, collected_sites_of,
    sql_alternate_variant_sites, sql_filtered1.
  rewrite (filter_trios_restrict child_where child_where_IDs).
  rewrite (filter_trios_restrict parent_where parent_where_IDs). done.
Qed.
End restriction.

(** C4 as stated fails: a list that names the child and one parent only is
    not a well-formed trio, and the cells run to their end and bind
    [denovo_snps] to a result computed from the two samples. *)
Lemma short_trio_not_rejected :
  let ids := ["NA19685"; "NA19661"] in
  let g := [call "NA19685" ["REF"; "ALT"] ["rs1"];
            call "NA19661" ["REF"; "REF"] ["rs1"]] in
  ¬ names_one_child_two_parents ids
  ∧ variant_analysis ids (loaded g) ≠ inl "InvalidInput"
  ∧ ∃ k', variant_analysis ids (loaded g) = inr ((), k')
          ∧ globals k' !! "denovo_snps" = Some (VStrings ["rs1"]).
Proof.
  cbv zeta.
  destruct (variant_analysis_run ["NA19685"; "NA19661"]
              [call "NA19685" ["REF"; "ALT"] ["rs1"]; call "NA19661" ["REF"; "REF"] ["rs1"]]
              _ (loaded_genotypes_df _)) as (k' & Hrun & Hsnps & _).
  split_and!.
  - intros Hperm%Permutation_length. discriminate Hperm.
  - rewrite Hrun. discriminate.
  - exists k'. split; [done|]. rewrite Hsnps. reflexivity.
Qed.

(** C4, amended: the list of sample names is not validated.  For every
    list, of any length, the cells run to their end without raising and bind
    [denovo_snps] to the result of the pipeline, which is the result for the
    names of the notebook's trio that the list contains. *)
Theorem variant_analysis_never_rejects ids g :
  ∃ k', variant_analysis ids (loaded g) = inr ((), k')
        ∧ globals k' !! "denovo_snps" = Some (VStrings (denovo_snps_of ids g))
        ∧ denovo_snps_of ids g = denovo_snps_of (filter (.∈ ids) IDs) g.
Proof.
  destruct (variant_analysis_run ids g _ (loaded_genotypes_df g)) as (k' & Hrun & Hsnps & _).
  exists k'. split_and!; [done | done | apply denovo_snps_of_restrict].
Qed.

(** *** The shape of the result *)

(** Flattening distinct one-element lists gives distinct elements. *)
Lemma NoDup_join_singletons (l : list (list string)) :
  NoDup l → Forall (λ k, length k = 1%nat) l → NoDup (mjoin l).
Proof.
  induction 1 as [|k l Hk Hl IH]; intros Hlen; [constructor|].
  apply Forall_cons in Hlen as [Hk1 Hlen].
  destruct k as [|x [|??]]; try discriminate Hk1. simpl.
  constructor; [|by apply IH].
  intros (k' & Hx & Hk')%list_elem_of_join.
  rewrite Forall_forall in Hlen. specialize (Hlen k' Hk').
  destruct k' as [|y [|??]]; try discriminate Hlen.
  apply list_elem_of_singleton in Hx as ->. done.
Qed.

(** C5 as stated fails: parent NA19661's record carries the names [rs1] and
    [alias]; the result lists [alias], which is the first name of no record,
    and lists [rs1] twice. *)
Lemma alias_and_duplicate_reported :
  let g := [call "NA19685" ["REF"; "ALT"] ["rs1"];
            call "NA19661" ["REF"; "REF"] ["rs1"; "alias"];
            call "NA19660" ["REF"; "REF"] ["rs1"]] in
  findDenovoCandidates g = ["rs1"; "alias"; "rs1"]
  ∧ ¬ NoDup (findDenovoCandidates g)
  ∧ (∀ r, r ∈ g → names0 r ≠ Some "alias").
Proof.
  cbv zeta. split_and!.
  - reflexivity.
  - compute_done.
  - apply Forall_forall. compute_done.
Qed.

(** C5, amended: the result is the concatenation of the distinct whole name
    lists of the records of [filtered2]: no name list is emitted twice, and
    its members are exactly the names, first or not, of those records.  When
    every input record carries at most one name, the result has no duplicate
    and each member is the first name of some input record. *)
Theorem denovo_snps_shape g :
  findDenovoCandidates g
    = mjoin (remove_dups ((λ t, names (variant (columns t))) <$> filtered2_of IDs g))
  ∧ (∀ n, n ∈ findDenovoCandidates g ↔
          ∃ t, t ∈ filtered2_of IDs g ∧ n ∈ names (variant (columns t)))
  ∧ ((∀ r, r ∈ g → (length (names (variant r)) ≤ 1)%nat) →
     NoDup (findDenovoCandidates g)
     ∧ ∀ n, n ∈ findDenovoCandidates g → ∃ r, r ∈ g ∧ names0 r = Some n).
Proof.
  assert (Heq : findDenovoCandidates g
    = mjoin (remove_dups ((λ t, names (variant (columns t))) <$> filtered2_of IDs g))).
  { unfold findDenovoCandidates, denovo_snps_of, flatten. by rewrite snp_names_groupBy. }
  split_and!; [done | apply elem_of_denovo_snps_of |].
  intros Hone.
  assert (Hrow : ∀ t, t ∈ filtered2_of IDs g →
            ∃ r n, r ∈ g ∧ columns t = r ∧ names (variant r) = [n]).
  { intros t (Ht & _ & Hin)%elem_of_filtered2_of.
    apply elem_of_trios_of in Ht as (r & -> & Hr & _). simpl in *.
    specialize (Hone r Hr). unfold names0 in Hin.
    destruct (names (variant r)) as [|n [|??]] eqn:Hnames; simpl in *; [done | | lia].
    by exists r, n. }
  split.
  - rewrite Heq. apply NoDup_join_singletons; [apply NoDup_remove_dups|].
    apply Forall_forall. intros k Hk. rewrite elem_of_remove_dups in Hk.
    apply list_elem_of_fmap in Hk as (t & -> & Ht).
    destruct (Hrow t Ht) as (r & n & _ & -> & ->). done.
  - intros n (t & Ht & Hn)%elem_of_denovo_snps_of.
    destruct (Hrow t Ht) as (r & m & Hr & Hc & Hm). rewrite Hc, Hm in Hn.
    apply list_elem_of_singleton in Hn as ->. exists r. split; [done|].
    unfold names0. by rewrite Hm.
Qed.

Lemma denovo_snps_shape_witness :
  let g := [call "NA19685" ["REF"; "ALT"] ["rs1"];
            call "NA19661" ["REF"; "REF"] ["rs1"];
            call "NA19660" ["REF"; "REF"] ["rs1"]] in
  NoDup (findDenovoCandidates g)
  ∧ ∀ n, n ∈ findDenovoCandidates g → ∃ r, r ∈ g ∧ names0 r = Some n.
Proof.
  cbv zeta.
  apply (denovo_snps_shape [call "NA19685" ["REF"; "ALT"] ["rs1"];
                            call "NA19661" ["REF"; "REF"] ["rs1"];
                            call "NA19660" ["REF"; "REF"] ["rs1"]]).
  apply Forall_forall. compute_done.
Defined.

(** *** No record of the trio *)

Lemma filter_trio_nil ids g :
  (∀ r, r ∈ g → sampleId r ∉ ids) → filter_trio ids g = [].
Proof.
  intros Hno. apply elem_of_nil_inv. intros r [Hin Hr]%list_elem_of_filter.
  by apply (Hno r).
Qed.

(** C6: when no record's sample is one of the trio, in particular when
    there is no record, the result is empty, and the cells run to their end
    without raising and bind [denovo_snps] to the empty list. *)
Theorem no_trio_record_empty g :
  (∀ r, r ∈ g → sampleId r ∉ IDs) →
  findDenovoCandidates g = []
  ∧ ∃ k', variant_analysis IDs (loaded g) = inr ((), k')
          ∧ globals k' !! "denovo_snps" = Some (VStrings []).
Proof.
  intros Hno.
  assert (Hnil : findDenovoCandidates g = []).
  { unfold findDenovoCandidates, denovo_snps_of, filtered2_of, collected_sites_of, trios_of.
    by rewrite (filter_trio_nil _ _ Hno). }
  split; [done|].
  destruct (variant_analysis_run IDs g _ (loaded_genotypes_df g)) as (k' & Hrun & Hsnps & _).
  exists k'. split; [done|]. by rewrite Hsnps, <- Hnil.
Qed.

Lemma no_trio_record_empty_witness :
  findDenovoCandidates [call "HG00096" ["REF"; "ALT"] ["rs1"]] = []
  ∧ findDenovoCandidates [] = [].
Proof.
  split.
  - apply (no_trio_record_empty [call "HG00096" ["REF"; "ALT"] ["rs1"]]).
    apply Forall_forall. compute_done.
  - apply (no_trio_record_empty []). apply Forall_forall. compute_done.
Defined.

(** *** The order of the input rows *)

Section permutation.
Context (ids : list string) (g g' : list GenotypeRecord) (Hperm : g ≡ₚ g').

Lemma trios_of_Permutation : trios_of ids g ≡ₚ trios_of ids g'.
Proof.
  unfold trios_of, withColumn_ReferenceRegion, filter_trio. by rewrite Hperm.
Qed.

Lemma collected_sites_of_Permutation :
  collected_sites_of ids g ≡ₚ collected_sites_of ids g'.
Proof.
  unfold collected_sites_of, sql_alternate_variant_sites.
  by rewrite trios_of_Permutation.
Qed.

Lemma isin_Permutation x : isin x (collected_sites_of ids g) ↔ isin x (collected_sites_of ids g').
Proof.
  destruct x as [s|]; simpl; [|done]. by rewrite collected_sites_of_Permutation.
Qed.

Lemma filtered2_of_Permutation : filtered2_of ids g ≡ₚ filtered2_of ids g'.
Proof.
  unfold filtered2_of, filter_sites, sql_filtered1.
  rewrite trios_of_Permutation.
  erewrite list_filter_iff; [done|]. intros t. apply isin_Permutation.
Qed.

Lemma remove_dups_Permutation (l l' : list (list string)) :
  l ≡ₚ l' → remove_dups l ≡ₚ remove_dups l'.
Proof.
  intros Hl. apply NoDup_Permutation; try apply NoDup_remove_dups.
  intros k. rewrite !elem_of_remove_dups. by rewrite Hl.
Qed.

Lemma denovo_snps_of_Permutation : denovo_snps_of ids g ≡ₚ denovo_snps_of ids g'.
Proof.
  unfold denovo_snps_of, flatten. rewrite !snp_names_groupBy.
  apply join_Permutation, remove_dups_Permutation.
  by rewrite filtered2_of_Permutation.
Qed.
End permutation.

(** C7: permuting the input records permutes the result: the two results
    have the same members, each as often in one as in the other. *)
Theorem findDenovoCandidates_permutation g g' :
  g ≡ₚ g' →
  findDenovoCandidates g ≡ₚ findDenovoCandidates g'
  ∧ ∀ n, n ∈ findDenovoCandidates g ↔ n ∈ findDenovoCandidates g'.
Proof.
  intros Hperm.
  assert (H : findDenovoCandidates g ≡ₚ findDenovoCandidates g')
    by apply (denovo_snps_of_Permutation IDs g g' Hperm).
  split; [done|]. intros n. by rewrite H.
Qed.

Lemma findDenovoCandidates_permutation_witness :
  findDenovoCandidates [call "NA19685" ["REF"; "ALT"] ["rs1"];
                        call "NA19661" ["REF"; "REF"] ["rs1"; "alias"];
                        call "NA19660" ["REF"; "REF"] ["rs1"]]
  ≡ₚ findDenovoCandidates [call "NA19660" ["REF"; "REF"] ["rs1"];
                           call "NA19685" ["REF"; "ALT"] ["rs1"];
                           call "NA19661" ["REF"; "REF"] ["rs1"; "alias"]].
Proof.
  apply (findDenovoCandidates_permutation
           [call "NA19685" ["REF"; "ALT"] ["rs1"];
            call "NA19661" ["REF"; "REF"] ["rs1"; "alias"];
            call "NA19660" ["REF"; "REF"] ["rs1"]]
           [call "NA19660" ["REF"; "REF"] ["rs1"];
            call "NA19685" ["REF"; "ALT"] ["rs1"];
            call "NA19661" ["REF"; "REF"] ["rs1"; "alias"]]).
  compute_done.
Defined.

(** *** Support of the result *)

(** C10: every name of the result is one of the names of an input record
    of one of the two parents that passed the parent query and whose first
    name is in the child's ALT list. *)
Theorem denovo_supported_by_parent_record g n :
  n ∈ findDenovoCandidates g →
  ∃ r, r ∈ g ∧ sampleId r ∈ parentIds ∧ parent_where (row_of r)
       ∧ isin (names0 r) (collected_sites_of IDs g)
       ∧ n ∈ names (variant r).
Proof.
  intros (t & Ht & Hn)%elem_of_denovo_snps_of.
  apply elem_of_filtered2_of in Ht as (Ht & Hp & Hin).
  apply elem_of_trios_of in Ht as (r & -> & Hr & _).
  exists r. split_and!; try done. by apply (parent_where_parentIds (row_of r)).
Qed.

Lemma denovo_supported_by_parent_record_witness :
  ∃ r, r ∈ [call "NA19685" ["REF"; "ALT"] ["rs1"]; call "NA19660" ["REF"; "REF"] ["rs1"]]
       ∧ sampleId r ∈ parentIds ∧ parent_where (row_of r)
       ∧ isin (names0 r)
           (collected_sites_of IDs
              [call "NA19685" ["REF"; "ALT"] ["rs1"]; call "NA19660" ["REF"; "REF"] ["rs1"]])
       ∧ "rs1" ∈ names (variant r).
Proof.
  apply (denovo_supported_by_parent_record
           [call "NA19685" ["REF"; "ALT"] ["rs1"]; call "NA19660" ["REF"; "REF"] ["rs1"]]
           "rs1").
  compute_done.
Defined.

(** *** The input records are left as they are *)

(** C8: running the cells leaves [genotypes_df] bound to the same records;
    the rows of the derived dataframe carry, in their original columns,
    records of the input that passed the sample filter, and these are a
    sublist of the input. *)
Theorem source_records_unchanged ids g k :
  globals k !! "genotypes_df" = Some (VGenotypes g) →
  (∃ k', variant_analysis ids k = inr ((), k')
         ∧ globals k' !! "genotypes_df" = Some (VGenotypes g))
  ∧ columns <$> trios_of ids g = filter_trio ids g
  ∧ filter_trio ids g `sublist_of` g.
Proof.
  intros Hg. split_and!.
  - destruct (variant_analysis_run ids g k Hg) as (k' & Hrun & _ & Hsame & _).
    by exists k'.
  - unfold trios_of, withColumn_ReferenceRegion.
    rewrite <- list_fmap_compose. apply list_fmap_id.
  - apply sublist_filter.
Qed.

Lemma source_records_unchanged_witness :
  let g := [call "NA19685" ["REF"; "ALT"] ["rs1"]; call "NA19660" ["REF"; "REF"] ["rs1"];
            call "HG00096" ["REF"; "ALT"] ["rs1"]] in
  ∃ k', variant_analysis IDs (loaded g) = inr ((), k')
        ∧ globals k' !! "genotypes_df" = Some (VGenotypes g).
Proof.
  cbv zeta.
  apply (source_records_unchanged IDs
           [call "NA19685" ["REF"; "ALT"] ["rs1"]; call "NA19660" ["REF"; "REF"] ["rs1"];
            call "HG00096" ["REF"; "ALT"] ["rs1"]]
           (loaded _)).
  reflexivity.
Defined.

(** ** Properties of the install script *)

(** The script in terms of the three checks. *)
Lemma install_script_checks e :
  (Install.virtualenv_active e ∧ Install.spark_home_set e ∧ Install.npm_installed e
   ∧ ∃ exports, Install.script e = ((exports ++ Install.build_steps)%list, None)
                ∧ Forall (λ c, ¬ Install.is_build_step c) exports)
  ∨ (¬ (Install.virtualenv_active e ∧ Install.spark_home_set e ∧ Install.npm_installed e)
     ∧ ∃ line, Install.script e = ([Install.echo line], Some 1)).
Proof.
  unfold Install.script, Install.virtualenv_active, Install.spark_home_set,
    Install.npm_installed, Install.INVENV, Install.arith, Install.test_x.
  destruct (Install.python_probe e) as [[|]|]; simpl;
    try (right; split; [intros [? _]; discriminate | by eexists]).
  destruct (decide (Install.SPARK_HOME e = "")) as [Hs | Hs];
    [right; split; [tauto | by eexists] |].
  destruct (decide (Install.command_v_npm e = "")) as [Hn | Hn]; simpl;
    [right; split; [tauto | by eexists] |].
  destruct (Install.executable e (Install.command_v_npm e)) eqn:Hx; simpl.
  - left. split_and!; try done. eexists [_; _]. split; [reflexivity|].
    repeat constructor; simpl; tauto.
  - right. split; [|by eexists]. intros (_ & _ & _ & Hx'). congruence.
Qed.

(** C9: when one of the three checks fails the script exits with status 1
    and runs neither [mvn] nor [make]; a build command runs only when all
    three pass, and then every build command runs. *)
Theorem install_checks_guard_build e :
  (¬ (Install.virtualenv_active e ∧ Install.spark_home_set e ∧ Install.npm_installed e) →
   (Install.script e).2 = Some 1
   ∧ Forall (λ c, ¬ Install.is_build_step c) (Install.script e).1)
  ∧ (Exists Install.is_build_step (Install.script e).1 →
     Install.virtualenv_active e ∧ Install.spark_home_set e ∧ Install.npm_installed e)
  ∧ (Install.virtualenv_active e ∧ Install.spark_home_set e ∧ Install.npm_installed e →
     Install.build_steps `suffix_of` (Install.script e).1).
Proof.
  destruct (install_script_checks e)
    as [(Hv & Hs & Hn & exports & -> & Hexp) | (Hfail & line & ->)]; simpl.
  - split_and!; [tauto | tauto |]. intros _. by exists exports.
  - split_and!; [| | tauto].
    + intros _. split; [done|]. repeat constructor. simpl. tauto.
    + intros Hex. apply Exists_cons in Hex as [[] | Hex%Exists_nil]; done.
Qed.

Lemma install_checks_guard_build_witness :
  let e := Install.mkEnv (Some false) "/opt/spark" "/usr/bin/npm" (λ _, true)
             "/root/mango" "" "py4j-0.10.4-src.zip" "mango-assembly-0.0.1.jar" in
  (Install.script e).2 = Some 1
  ∧ Forall (λ c, ¬ Install.is_build_step c) (Install.script e).1.
Proof.
  cbv zeta.
  apply (install_checks_guard_build
           (Install.mkEnv (Some false) "/opt/spark" "/usr/bin/npm" (λ _, true)
              "/root/mango" "" "py4j-0.10.4-src.zip" "mango-assembly-0.0.1.jar")).
  unfold Install.virtualenv_active. simpl. intros [H _]. discriminate H.
Defined.

Example install_runs_build :
  Install.script (Install.mkEnv (Some true) "/opt/spark" "/usr/bin/npm" (λ _, true)
                    "/root/mango" "" "py4j.zip" "mango-assembly.jar")
  = ([ Install.export "PYTHONPATH" "/opt/spark/python:/opt/spark/python/lib/py4j.zip:";
       Install.export "PYSPARK_SUBMIT_ARGS"
         "--jars /root/mango/mango-assembly/target/mango-assembly.jar --driver-class-path /root/mango/mango-assembly/target/mango-assembly.jar pyspark-shell";
       Install.mvn ["clean"; "package"; "-DskipTests"];
       Install.pushd "mango-python"; Install.make "prepare"; Install.make "develop";
       Install.popd;
       Install.pushd "mango-viz"; Install.make "prepare"; Install.make "develop";
       Install.popd ], None).
Proof. reflexivity. Qed.

Example ex1 : findDenovoCandidates
  [call "NA19685" ["REF";"ALT"] ["rs1"]; call "NA19661" ["REF";"REF"] ["rs1"];
   call "NA19660" ["REF";"REF"] ["rs1"]] = ["rs1"].
Proof. vm_compute. reflexivity. Qed.

Example ex2 : referenceRegion_of (call "NA19685" [] []) = "17:63052580-63052581".
Proof. vm_compute. reflexivity. Qed.

Example ex3 : (match variant_analysis IDs (loaded
  [call "NA19685" ["REF";"ALT"] ["rs1"]; call "NA19661" ["REF";"REF"] ["rs1"];
   call "NA19660" ["REF";"REF"] ["rs1"]]) with inl _ => None | inr (_, k) => globals k !! "denovo_snps" end) = Some (VStrings ["rs1"]).
Proof. vm_compute. reflexivity. Qed.

(** ** Further properties of the variant filter *)

(** The result in terms of the input records, for any list of sample
    names. *)
Lemma elem_of_denovo_records ids g n :
  n ∈ denovo_snps_of ids g ↔
  ∃ c p m, c ∈ g ∧ sampleId c ∈ ids ∧ child_where (row_of c) ∧ names0 c = Some m
           ∧ p ∈ g ∧ sampleId p ∈ ids ∧ parent_where (row_of p) ∧ names0 p = Some m
           ∧ n ∈ names (variant p).
Proof.
  rewrite elem_of_denovo_snps_of. split.
  - intros (t & (Ht & Hp & Hin)%elem_of_filtered2_of & Hn).
    apply elem_of_trios_of in Ht as (p & -> & Hpg & Hpid). simpl in Hin, Hn.
    destruct (names0 p) as [m|] eqn:Hm; [|done]. simpl in Hin.
    apply elem_of_collected_sites in Hin as (c & Hc & Hcg & Hcid & Halt & Hchild).
    exists c, p, m. split_and!; done.
  - intros (c & p & m & Hcg & Hcid & [Halt Hchild] & Hc & Hpg & Hpid & Hp & Hm & Hn).
    exists (row_of p). split; [|done]. apply elem_of_filtered2_of. split_and!.
    + apply elem_of_trios_of. by exists p.
    + done.
    + simpl. rewrite Hm. simpl. apply elem_of_collected_sites. by exists c.
Qed.

(** X1.  A name is reported exactly when the input holds a record of the
    child with an ALT call and a record of a parent with the same first
    name, the parent record being any record of NA19661 or a record of
    NA19660 without ALT call, and the name is one of the names of that
    parent record. *)
Theorem reported_iff g n :
  n ∈ findDenovoCandidates g ↔
  ∃ c p m, c ∈ g ∧ sampleId c = "NA19685" ∧ array_contains (alleles c) "ALT"
           ∧ names0 c = Some m
           ∧ p ∈ g ∧ names0 p = Some m
           ∧ (sampleId p = "NA19661"
              ∨ (sampleId p = "NA19660" ∧ ¬ array_contains (alleles p) "ALT"))
           ∧ n ∈ names (variant p).
Proof.
  unfold findDenovoCandidates. rewrite elem_of_denovo_records. split.
  - intros (c & p & m & Hcg & _ & [Halt Hchild] & Hc & Hpg & _ & Hp & Hm & Hn).
    exists c, p, m. split_and!; done.
  - intros (c & p & m & Hcg & Hchild & Halt & Hc & Hpg & Hm & Hp & Hn).
    exists c, p, m. split_and!; try done.
    + rewrite Hchild. unfold IDs. set_solver.
    + by apply (parent_where_IDs (row_of p)).
Qed.

(** X2.  What the notebook sets out to find is found: when the child has an
    ALT call at a named site and a parent has a record of that site without
    ALT call, the name of the site is reported. *)
Theorem child_alt_parent_ref_reported g c p m :
  c ∈ g → sampleId c = childId → array_contains (alleles c) "ALT" → names0 c = Some m →
  p ∈ g → sampleId p ∈ parentIds → ¬ array_contains (alleles p) "ALT" → names0 p = Some m →
  m ∈ findDenovoCandidates g.
Proof.
  intros Hcg Hchild Halt Hc Hpg Hpid Href Hm.
  apply elem_of_denovo_records. exists c, p, m.
  assert (Hp : parent_where (row_of p)).
  { unfold parent_where, parentIds in *. simpl.
    apply elem_of_cons in Hpid as [Hpid | Hpid%list_elem_of_singleton]; [by left | by right]. }
  split_and!; try done.
  - rewrite Hchild. unfold IDs, childId. set_solver.
  - by apply (parent_where_IDs (row_of p)).
  - unfold names0 in Hm. by apply list_elem_of_lookup_2 in Hm.
Qed.

Lemma child_alt_parent_ref_reported_witness :
  "rs1" ∈ findDenovoCandidates
    [call "NA19685" ["REF"; "ALT"] ["rs1"]; call "NA19660" ["REF"; "REF"] ["rs1"]].
Proof.
  apply (child_alt_parent_ref_reported
           [call "NA19685" ["REF"; "ALT"] ["rs1"]; call "NA19660" ["REF"; "REF"] ["rs1"]]
           (call "NA19685" ["REF"; "ALT"] ["rs1"])
           (call "NA19660" ["REF"; "REF"] ["rs1"]) "rs1"); compute_done.
Defined.

(** X3.  Adding records to the input never removes a name from the result:
    no record, of a parent with an ALT call or other, excludes a site. *)
Theorem findDenovoCandidates_monotone g g' n :
  g ⊆ g' → n ∈ findDenovoCandidates g → n ∈ findDenovoCandidates g'.
Proof.
  intros Hsub. unfold findDenovoCandidates. rewrite !elem_of_denovo_records.
  intros (c & p & m & Hcg & Hcid & Hc & Hm & Hpg & Hpid & Hp & Hpm & Hn).
  exists c, p, m. split_and!; try done; by apply Hsub.
Qed.

Lemma findDenovoCandidates_monotone_witness :
  "rs1" ∈ findDenovoCandidates
    [call "NA19661" ["ALT"; "ALT"] ["rs1"];
     call "NA19685" ["REF"; "ALT"] ["rs1"]; call "NA19660" ["REF"; "REF"] ["rs1"]].
Proof.
  apply (findDenovoCandidates_monotone
           [call "NA19685" ["REF"; "ALT"] ["rs1"]; call "NA19660" ["REF"; "REF"] ["rs1"]]
           [call "NA19661" ["ALT"; "ALT"] ["rs1"];
            call "NA19685" ["REF"; "ALT"] ["rs1"]; call "NA19660" ["REF"; "REF"] ["rs1"]]
           "rs1"); compute_done.
Defined.

(** X11.  The exclusion the parent query does perform: a name is not
    reported when no record of NA19661 lists it and every record of NA19660
    that lists it contains an ALT call. *)
Theorem parent2_alt_site_excluded g n :
  (∀ p, p ∈ g → sampleId p = "NA19661" → n ∉ names (variant p)) →
  (∀ p, p ∈ g → sampleId p = "NA19660" → n ∈ names (variant p) →
        array_contains (alleles p) "ALT") →
  n ∉ findDenovoCandidates g.
Proof.
  intros H1 H2. unfold findDenovoCandidates. rewrite elem_of_denovo_records.
  intros (c & p & m & _ & _ & _ & _ & Hpg & _ & [Hid | [Hid Href]] & _ & Hn).
  - exact (H1 p Hpg Hid Hn).
  - exact (Href (H2 p Hpg Hid Hn)).
Qed.

Lemma parent2_alt_site_excluded_witness :
  "rs2" ∉ findDenovoCandidates
    [call "NA19685" ["REF"; "ALT"] ["rs2"]; call "NA19660" ["REF"; "ALT"] ["rs2"]].
Proof.
  apply (parent2_alt_site_excluded
           [call "NA19685" ["REF"; "ALT"] ["rs2"]; call "NA19660" ["REF"; "ALT"] ["rs2"]]
           "rs2").
  - apply (proj1 (Forall_forall
                    (λ p, sampleId p = "NA19661" → "rs2" ∉ names (variant p)) _)).
    compute_done.
  - apply (proj1 (Forall_forall
                    (λ p, sampleId p = "NA19660" → "rs2" ∈ names (variant p) →
                          array_contains (alleles p) "ALT") _)).
    compute_done.
Defined.


(** X4.  Only the records of the three samples count: listing further
    samples in [IDs] changes nothing, and neither does filtering the input
    by sample beforehand. *)
Theorem other_samples_irrelevant ids g :
  IDs ⊆ ids →
  denovo_snps_of ids g = findDenovoCandidates g
  ∧ findDenovoCandidates (filter_trio ids g) = findDenovoCandidates g.
Proof.
  intros Hsub. split.
  - rewrite denovo_snps_of_restrict. unfold findDenovoCandidates. f_equal.
    unfold IDs in *. rewrite !filter_cons_True by (apply Hsub; set_solver). done.
  - unfold findDenovoCandidates, denovo_snps_of, filtered2_of, collected_sites_of, trios_of.
    assert (Hidem : filter_trio IDs (filter_trio ids g) = filter_trio IDs g).
    { unfold filter_trio. rewrite list_filter_filter. apply list_filter_iff.
      intros r. split; [tauto|]. intros Hr. split; [done | by apply Hsub]. }
    by rewrite Hidem.
Qed.

Lemma other_samples_irrelevant_witness :
  let g := [call "HG00096" ["ALT"; "ALT"] ["rs1"];
            call "NA19685" ["REF"; "ALT"] ["rs1"]; call "NA19660" ["REF"; "REF"] ["rs1"]] in
  denovo_snps_of ["HG00096"; "NA19685"; "NA19661"; "NA19660"] g = findDenovoCandidates g.
Proof.
  cbv zeta.
  apply (other_samples_irrelevant ["HG00096"; "NA19685"; "NA19661"; "NA19660"]
           [call "HG00096" ["ALT"; "ALT"] ["rs1"];
            call "NA19685" ["REF"; "ALT"] ["rs1"]; call "NA19660" ["REF"; "REF"] ["rs1"]]).
  compute_done.
Defined.

(** *** Sites without a name *)

Lemma names0_named r m : names0 r = Some m → names (variant r) ≠ [].
Proof. unfold names0. by destruct (names (variant r)). Qed.

Lemma names0_unnamed r : names (variant r) = [] → names0 r = None.
Proof. unfold names0. by intros ->. Qed.

(** Dropping the records without names does not change which names the
    child list holds. *)
Lemma isin_collected_sites_named ids g x :
  isin x (collected_sites_of ids (filter (λ r, names (variant r) ≠ []) g))
  ↔ isin x (collected_sites_of ids g).
Proof.
  destruct x as [m|]; simpl; [|done].
  rewrite !elem_of_collected_sites. setoid_rewrite list_elem_of_filter.
  split.
  - intros (r & Hm & [_ Hr] & Hrest). by exists r.
  - intros (r & Hm & Hr & Hid & Halt & Hchild). exists r. split_and!; try done.
    by apply (names0_named r m).
Qed.

(** A record without names passes no membership test on its first name. *)
Lemma parent_rows_named ids sites g :
  filter_sites sites (sql_filtered1 (trios_of ids (filter (λ r, names (variant r) ≠ []) g)))
  = filter_sites sites (sql_filtered1 (trios_of ids g)).
Proof.
  unfold filter_sites, sql_filtered1, trios_of, withColumn_ReferenceRegion, filter_trio.
  induction g as [|r g' IH]; [done|].
  rewrite (filter_cons _ r g').
  destruct (decide (names (variant r) ≠ [])) as [Hnamed | Hunnamed].
  - rewrite !(filter_cons _ r).
    destruct (decide (sampleId r ∈ ids)); [|done].
    rewrite !fmap_cons, !(filter_cons _ (mkTrioRow r _)).
    destruct (decide (parent_where _)); [|done].
    rewrite !(filter_cons _ (mkTrioRow r _)).
    destruct (decide (isin _ sites)); [|done]. by rewrite IH.
  - rewrite IH, (filter_cons _ r g').
    destruct (decide (sampleId r ∈ ids)); [|done].
    rewrite fmap_cons, (filter_cons _ (mkTrioRow r _)).
    destruct (decide (parent_where _)); [|done].
    rewrite (filter_cons _ (mkTrioRow r _)).
    rewrite decide_False; [done|]. simpl.
    rewrite names0_unnamed; [tauto|]. by apply dec_stable.
Qed.

(** X5.  Sites without a name are invisible: no record with an empty
    [names] array is among the selected parent records, and removing all such
    records from the input leaves the result as it is. *)
Theorem unnamed_sites_dropped g :
  (∀ t, t ∈ filtered2_of IDs g → names (variant (columns t)) ≠ [])
  ∧ findDenovoCandidates (filter (λ r, names (variant r) ≠ []) g) = findDenovoCandidates g.
Proof.
  split.
  - intros t (_ & _ & Hin)%elem_of_filtered2_of.
    destruct (names0 (columns t)) as [m|] eqn:Hm; [|done].
    by apply (names0_named _ m).
  - unfold findDenovoCandidates, denovo_snps_of, filtered2_of.
    rewrite parent_rows_named. unfold filter_sites.
    erewrite list_filter_iff; [done|]. intros t. apply isin_collected_sites_named.
Qed.

(** *** The groups and their counts *)

Lemma sum_list_fmap_add {A} (f h : A → nat) (m : list A) :
  sum_list ((λ k, f k + h k)%nat <$> m) = (sum_list (f <$> m) + sum_list (h <$> m))%nat.
Proof. induction m as [|k m IH]; csimpl; [done | rewrite IH; lia]. Qed.

Lemma sum_list_indicator (x : list string) (m : list (list string)) :
  NoDup m → x ∈ m →
  sum_list ((λ k, if decide (k = x) then 1 else 0)%nat <$> m) = 1%nat.
Proof.
  induction 1 as [|k m Hk Hm IH]; intros Hx; [by apply elem_of_nil in Hx|].
  csimpl. destruct (decide (k = x)) as [-> | Hne].
  - assert (Hzero : sum_list ((λ k, if decide (k = x) then 1 else 0)%nat <$> m) = 0%nat).
    { clear IH Hx Hm. induction m as [|k m IHm]; csimpl; [done|].
      rewrite decide_False by (intros ->; apply Hk; left).
      apply IHm. intros Hin. apply Hk. by right. }
    by rewrite Hzero.
  - apply elem_of_cons in Hx as [-> | Hx]; [done|]. by rewrite IH.
Qed.

Lemma sum_list_occurrences (m l : list (list string)) :
  NoDup m → l ⊆ m →
  sum_list ((λ k, length (filter (k =.) l)) <$> m) = length l.
Proof.
  intros Hm. induction l as [|x l IH]; intros Hsub.
  - clear Hsub. induction m as [|k m' IHm]; csimpl; [done|].
    apply IHm. by apply NoDup_cons in Hm as [_ ?].
  - assert (Hstep : ∀ k, length (filter (k =.) (x :: l))
                         = ((if decide (k = x) then 1 else 0) + length (filter (k =.) l))%nat).
    { intros k. rewrite filter_cons. by destruct (decide (k = x)). }
    erewrite list_fmap_ext; [|intros ? k _; apply Hstep].
    rewrite sum_list_fmap_add, sum_list_indicator, IH; [done | | done |].
    + intros y Hy. apply Hsub. by right.
    + apply Hsub. left.
Qed.

Lemma length_filter_key (k : list string) (df : list TrioRow) :
  length (filter (k =.) ((λ t, names (variant (columns t))) <$> df))
  = length (filter (λ t, names (variant (columns t)) = k) df).
Proof.
  induction df as [|t df IH]; [done|].
  rewrite fmap_cons, !filter_cons.
  destruct (decide (k = _)) as [-> | Hne].
  - rewrite decide_True by done. simpl. by rewrite IH.
  - rewrite decide_False by (intros Heq; by apply Hne). done.
Qed.

(** X6.  The rows of [snp_counts]: the keys are distinct name lists; a pair
    of a name list and a count is a row exactly when the count is positive
    and is the number of rows of the dataframe with that name list; the
    counts add up to the number of rows of the dataframe. *)
Theorem groupBy_names_count_rows df :
  NoDup (groupBy_names_count df).*1
  ∧ (∀ k c, (k, c) ∈ groupBy_names_count df ↔
            (0 < c)%nat ∧ c = length (filter (λ t, names (variant (columns t)) = k) df))
  ∧ sum_list (groupBy_names_count df).*2 = length df.
Proof.
  unfold groupBy_names_count. cbv zeta.
  set (keys := (λ t, names (variant (columns t))) <$> df).
  split_and!.
  - rewrite <- list_fmap_compose.
    rewrite (list_fmap_ext _ id (remove_dups keys)) by done.
    rewrite list_fmap_id. apply NoDup_remove_dups.
  - intros k c. rewrite list_elem_of_fmap. setoid_rewrite elem_of_remove_dups.
    unfold keys. setoid_rewrite length_filter_key. split.
    + intros (k' & [= -> ->] & Hk). split; [|done].
      apply list_elem_of_fmap in Hk as (t & -> & Ht).
      assert (Hin : t ∈ filter (λ t', names (variant (columns t')) = names (variant (columns t))) df)
        by (by apply list_elem_of_filter).
      destruct (filter _ df); [by apply elem_of_nil in Hin | simpl; lia].
    + intros [Hpos ->]. exists k. split; [done|].
      destruct (filter _ df) as [|t l] eqn:Hf; [simpl in Hpos; lia|].
      assert (Ht : t ∈ filter (λ t', names (variant (columns t')) = k) df)
        by (rewrite Hf; left).
      apply list_elem_of_filter in Ht as [<- Ht]. apply list_elem_of_fmap. by exists t.
  - rewrite <- list_fmap_compose.
    rewrite (list_fmap_ext _ (λ k, length (filter (k =.) keys)) (remove_dups keys)) by done.
    rewrite sum_list_occurrences.
    + unfold keys. by rewrite length_fmap.
    + apply NoDup_remove_dups.
    + intros k Hk. by apply elem_of_remove_dups.
Qed.

(** *** The coordinates are not consulted *)

Lemma Forall2_filter_related {A} (R : A → A → Prop) (P : A → Prop)
    `{!∀ a, Decision (P a)} (l l' : list A) :
  (∀ a a', R a a' → (P a ↔ P a')) →
  Forall2 R l l' → Forall2 R (filter P l) (filter P l').
Proof.
  intros HP. induction 1 as [|a a' l l' Ha _ IH]; [constructor|].
  rewrite !filter_cons. specialize (HP a a' Ha).
  destruct (decide (P a)), (decide (P a')); try tauto. by constructor.
Qed.

Section same_calls.
Context (ids : list string) (g g' : list GenotypeRecord).

(** Two records agree on the sample, the calls and the variant. *)
Let same (r r' : GenotypeRecord) : Prop :=
  sampleId r = sampleId r' ∧ alleles r = alleles r' ∧ variant r = variant r'.
Let same_row (t t' : TrioRow) : Prop := same (columns t) (columns t').

Context (Hsame : Forall2 same g g').

Lemma trios_of_same : Forall2 same_row (trios_of ids g) (trios_of ids g').
Proof.
  unfold trios_of, withColumn_ReferenceRegion, filter_trio.
  apply Forall2_fmap.
  apply (Forall2_filter_related same); [|by eapply Forall2_impl].
  intros r r' (Hs & _ & _). by rewrite Hs.
Qed.

Lemma collected_sites_of_same : collected_sites_of ids g = collected_sites_of ids g'.
Proof.
  unfold collected_sites_of, sql_alternate_variant_sites.
  assert (H : Forall2 same_row (filter child_where (trios_of ids g))
                               (filter child_where (trios_of ids g'))).
  { apply Forall2_filter_related; [|apply trios_of_same].
    intros t t' (Hs & Ha & _). unfold child_where. by rewrite Hs, Ha. }
  induction H as [|t t' l l' (_ & _ & Hv) _ IH]; [done|].
  rewrite !fmap_cons, IH. unfold names0. by rewrite Hv.
Qed.

Lemma denovo_snps_of_same : denovo_snps_of ids g = denovo_snps_of ids g'.
Proof.
  unfold denovo_snps_of, flatten. rewrite !snp_names_groupBy. do 2 f_equal.
  assert (H : Forall2 same_row (filtered2_of ids g) (filtered2_of ids g')).
  { unfold filtered2_of, filter_sites, sql_filtered1. rewrite collected_sites_of_same.
    apply Forall2_filter_related.
    { intros t t' (_ & _ & Hv). unfold names0. by rewrite Hv. }
    apply Forall2_filter_related; [|apply trios_of_same].
    intros t t' (Hs & Ha & _). unfold parent_where. by rewrite Hs, Ha. }
  induction H as [|t t' l l' (_ & _ & Hv) _ IH]; [done|].
  by rewrite !fmap_cons, IH, Hv.
Qed.
End same_calls.

(** X13.  The result does not depend on where the variants are: two inputs
    whose records agree, one by one, on the sample, the calls and the variant
    names give the same result, whatever their contigs, starts and ends. *)
Theorem coordinates_not_consulted g g' :
  Forall2 (λ r r', sampleId r = sampleId r' ∧ alleles r = alleles r'
                   ∧ variant r = variant r') g g' →
  findDenovoCandidates g = findDenovoCandidates g'.
Proof. intros Hsame. by apply denovo_snps_of_same. Qed.

Lemma coordinates_not_consulted_witness :
  findDenovoCandidates
    [mkGenotype "NA19685" "17" 100 101 ["REF"; "ALT"] (mkVariant ["rs1"]);
     mkGenotype "NA19660" "17" 100 101 ["REF"; "REF"] (mkVariant ["rs1"])]
  = findDenovoCandidates
    [mkGenotype "NA19685" "17" 100 101 ["REF"; "ALT"] (mkVariant ["rs1"]);
     mkGenotype "NA19660" "3" 5000 5001 ["REF"; "REF"] (mkVariant ["rs1"])].
Proof.
  apply (coordinates_not_consulted
    [mkGenotype "NA19685" "17" 100 101 ["REF"; "ALT"] (mkVariant ["rs1"]);
     mkGenotype "NA19660" "17" 100 101 ["REF"; "REF"] (mkVariant ["rs1"])]
    [mkGenotype "NA19685" "17" 100 101 ["REF"; "ALT"] (mkVariant ["rs1"]);
     mkGenotype "NA19660" "3" 5000 5001 ["REF"; "REF"] (mkVariant ["rs1"])]).
  repeat constructor.
Defined.

(** *** The [ReferenceRegion] column *)

Local Close Scope string_scope.

Lemma chars_app a b : chars (a +:+ b) = chars a ++ chars b.
Proof. induction a as [|c a IH]; simpl; [done | by rewrite IH]. Qed.

Lemma chars_inj a b : chars a = chars b → a = b.
Proof.
  intros H. rewrite <- (String.string_of_list_ascii_of_string a), <- (String.string_of_list_ascii_of_string b).
  unfold chars in H. by rewrite H.
Qed.

Lemma pretty_N_char_digit d : digit (pretty_N_char d).
Proof. unfold pretty_N_char, digit. repeat case_match; compute_done. Qed.

Lemma pretty_N_go_digits x s :
  Forall digit (chars s) → Forall digit (chars (pretty_N_go x s)).
Proof.
  revert s. induction (N.lt_wf_0 x) as [x _ IH]; intros s Hs.
  assert (x = 0 ∨ 0 < x)%N as [-> | Hx] by lia; [by rewrite pretty_N_go_0|].
  rewrite pretty_N_go_step by done. apply IH; [by apply N.div_lt|].
  simpl. constructor; [apply pretty_N_char_digit | done].
Qed.

Lemma pretty_N_go_nonempty x s : s ≠ ""%string → pretty_N_go x s ≠ ""%string.
Proof.
  revert s. induction (N.lt_wf_0 x) as [x _ IH]; intros s Hs.
  assert (x = 0 ∨ 0 < x)%N as [-> | Hx] by lia; [by rewrite pretty_N_go_0|].
  rewrite pretty_N_go_step by done. apply IH; [by apply N.div_lt | done].
Qed.

Lemma pretty_N_digits (x : N) : Forall digit (chars (pretty x)) ∧ chars (pretty x) ≠ [].
Proof.
  unfold pretty, pretty_N. destruct (decide (x = 0%N)) as [-> | Hx].
  - split; [|done]. simpl. apply Forall_singleton. compute_done.
  - split; [by apply pretty_N_go_digits; constructor|].
    assert (Hpos : (0 < x)%N) by lia.
    rewrite pretty_N_go_step by done.
    intros Hnil. apply (pretty_N_go_nonempty (x `div` 10)%N
                          (String (pretty_N_char (x `mod` 10)) ""%string)); [done|].
    by apply chars_inj.
Qed.

Lemma pretty_Z_numeral (z : Z) : numeral (chars (pretty z)).
Proof.
  unfold numeral. destruct z as [|p|p]; unfold pretty, pretty_Z.
  - exists [], (chars "0"). split_and!; [done | by left | | done].
    simpl. apply Forall_singleton. compute_done.
  - exists [], (chars (pretty (N.pos p))). split_and!; [done | by left | |];
      apply pretty_N_digits.
  - exists ["-"%char], (chars (pretty (N.pos p))). split_and!; [done | by right | |];
      apply pretty_N_digits.
Qed.

(** A run of digits at the end of a list is determined by the list, when
    what precedes it ends in another character. *)
Lemma digit_suffix_unique (l1 l2 d1 d2 : list ascii) (c1 c2 : ascii) :
  ¬ digit c1 → ¬ digit c2 → Forall digit d1 → Forall digit d2 →
  (l1 ++ [c1]) ++ d1 = (l2 ++ [c2]) ++ d2 →
  l1 = l2 ∧ c1 = c2 ∧ d1 = d2.
Proof.
  intros Hc1 Hc2 Hd1 Hd2 Heq.
  assert (Hrev : reverse d1 ++ c1 :: reverse l1 = reverse d2 ++ c2 :: reverse l2).
  { apply (f_equal reverse) in Heq. by rewrite !reverse_app in Heq. }
  assert (Hr1 : Forall digit (reverse d1)) by (by apply Forall_reverse).
  assert (Hr2 : Forall digit (reverse d2)) by (by apply Forall_reverse).
  assert (Hpre : reverse d1 = reverse d2 ∧ c1 :: reverse l1 = c2 :: reverse l2).
  { clear Heq Hd1 Hd2. revert Hr1 Hr2 Hrev.
    generalize (reverse d1) (reverse d2). intros e1.
    induction e1 as [|x e1 IH]; intros [|y e2] He1 He2 Heq; simpl in Heq.
    - done.
    - injection Heq as -> _. by apply Forall_cons in He2 as [? _].
    - injection Heq as <- _. by apply Forall_cons in He1 as [? _].
    - injection Heq as -> Heq. apply Forall_cons in He1 as [_ He1].
      apply Forall_cons in He2 as [_ He2].
      destruct (IH e2 He1 He2 Heq) as [-> ?]. done. }
  destruct Hpre as [Hd Hl]. injection Hl as -> Hl.
  split_and!; [| done |]; by apply (inj reverse).
Qed.

(** The layout [contig:start-end] is read back in one way only. *)
Lemma region_layout_inj (c1 c2 s1 s2 e1 e2 : list ascii) :
  numeral s1 → numeral s2 → numeral e1 → numeral e2 →
  c1 ++ ":"%char :: s1 ++ "-"%char :: e1 = c2 ++ ":"%char :: s2 ++ "-"%char :: e2 →
  c1 = c2 ∧ s1 = s2 ∧ e1 = e2.
Proof.
  intros (gs1 & ds1 & -> & Hgs1 & Hds1 & Hn1) (gs2 & ds2 & -> & Hgs2 & Hds2 & Hn2)
         (ge1 & de1 & -> & Hge1 & Hde1 & _) (ge2 & de2 & -> & Hge2 & Hde2 & _) Heq.
  assert (Hdash : ¬ digit "-"%char) by compute_done.
  assert (Hcolon : ¬ digit ":"%char) by compute_done.
  (* the digits of the end coordinate *)
  assert (Hlast : ∀ (c : list ascii) gs ds ge (de : list ascii),
             (ge = [] ∨ ge = ["-"%char]) →
             ∃ l, c ++ ":"%char :: (gs ++ ds) ++ "-"%char :: ge ++ de = (l ++ ["-"%char]) ++ de
                  ∧ (ge = [] → l = c ++ ":"%char :: gs ++ ds)
                  ∧ (ge = ["-"%char] → l = (c ++ ":"%char :: gs ++ ds) ++ ["-"%char])).
  { intros c gs ds ge de [-> | ->].
    - exists (c ++ ":"%char :: gs ++ ds). split_and!; [|done|done].
      by repeat (progress (rewrite <- ?app_assoc; simpl)).
    - exists ((c ++ ":"%char :: gs ++ ds) ++ ["-"%char]). split_and!; [|done|done].
      by repeat (progress (rewrite <- ?app_assoc; simpl)). }
  destruct (Hlast c1 gs1 ds1 ge1 de1 Hge1) as (l1 & Hl1 & Hl1a & Hl1b).
  destruct (Hlast c2 gs2 ds2 ge2 de2 Hge2) as (l2 & Hl2 & Hl2a & Hl2b).
  rewrite Hl1, Hl2 in Heq.
  apply digit_suffix_unique in Heq as (Hl & _ & ->); try done.
  (* a start coordinate ends in a digit *)
  assert (Hsnoc : ∀ (ds : list ascii), Forall digit ds → ds ≠ [] →
             ∃ ds' d, ds = ds' ++ [d] ∧ digit d).
  { intros ds. induction ds as [|d ds' _] using rev_ind; intros Hds Hne; [done|].
    exists ds', d. split; [done|].
    apply Forall_app in Hds as [_ Hd]. by inversion Hd. }
  destruct (Hsnoc ds1 Hds1 Hn1) as (ds1' & d1 & Hds1' & Hd1).
  destruct (Hsnoc ds2 Hds2 Hn2) as (ds2' & d2 & Hds2' & Hd2).
  (* the signs of the end coordinates agree *)
  assert (Hstart : c1 ++ ":"%char :: gs1 ++ ds1 = c2 ++ ":"%char :: gs2 ++ ds2 ∧ ge1 = ge2).
  { destruct Hge1 as [-> | ->], Hge2 as [-> | ->];
      rewrite ?(Hl1a eq_refl), ?(Hl1b eq_refl), ?(Hl2a eq_refl), ?(Hl2b eq_refl) in Hl.
    - done.
    - exfalso. rewrite Hds1' in Hl.
      replace (c1 ++ ":"%char :: gs1 ++ ds1' ++ [d1])
        with ((c1 ++ ":"%char :: gs1 ++ ds1') ++ [d1]) in Hl
        by (by repeat (progress (rewrite <- ?app_assoc; simpl))).
      apply app_inj_tail in Hl as [_ ->]. done.
    - exfalso. rewrite Hds2' in Hl.
      replace (c2 ++ ":"%char :: gs2 ++ ds2' ++ [d2])
        with ((c2 ++ ":"%char :: gs2 ++ ds2') ++ [d2]) in Hl
        by (by repeat (progress (rewrite <- ?app_assoc; simpl))).
      apply app_inj_tail in Hl as [_ <-]. done.
    - by apply app_inj_tail in Hl as [-> _]. }
  destruct Hstart as [Hstart <-].
  (* the digits of the start coordinate *)
  assert (Hmid : ∀ (c : list ascii) gs (ds : list ascii),
             (gs = [] ∨ gs = ["-"%char]) →
             ∃ l x, c ++ ":"%char :: gs ++ ds = (l ++ [x]) ++ ds ∧ ¬ digit x
                    ∧ (gs = [] → l = c ∧ x = ":"%char)
                    ∧ (gs = ["-"%char] → l = c ++ [":"%char] ∧ x = "-"%char)).
  { intros c gs ds [-> | ->].
    - exists c, ":"%char. split_and!; [|done|done|done].
      by repeat (progress (rewrite <- ?app_assoc; simpl)).
    - exists (c ++ [":"%char]), "-"%char. split_and!; [|done|done|done].
      by repeat (progress (rewrite <- ?app_assoc; simpl)). }
  destruct (Hmid c1 gs1 ds1 Hgs1) as (m1 & x1 & Hm1 & Hx1 & Hm1a & Hm1b).
  destruct (Hmid c2 gs2 ds2 Hgs2) as (m2 & x2 & Hm2 & Hx2 & Hm2a & Hm2b).
  rewrite Hm1, Hm2 in Hstart.
  apply digit_suffix_unique in Hstart as (Hm & Hx & ->); try done.
  destruct Hgs1 as [-> | ->], Hgs2 as [-> | ->];
    try destruct (Hm1a eq_refl) as [-> ->]; try destruct (Hm1b eq_refl) as [-> ->];
    try destruct (Hm2a eq_refl) as [-> ->]; try destruct (Hm2b eq_refl) as [-> ->];
    try discriminate Hx.
  - done.
  - by apply app_inj_tail in Hm as [-> _].
Qed.

(** X7.  The [ReferenceRegion] string identifies the region: two records
    with the same string have the same contig name, the same start and the
    same end. *)
Theorem referenceRegion_of_inj r1 r2 :
  referenceRegion_of r1 = referenceRegion_of r2 ↔
  contigName r1 = contigName r2 ∧ start r1 = start r2 ∧ end_ r1 = end_ r2.
Proof.
  unfold referenceRegion_of. split; [|by intros (-> & -> & ->)].
  intros Heq. apply (f_equal chars) in Heq. rewrite !chars_app in Heq. simpl in Heq.
  apply region_layout_inj in Heq as (Hc & Hs & He); try apply pretty_Z_numeral.
  split_and!.
  - by apply chars_inj.
  - by apply (inj pretty), chars_inj.
  - by apply (inj pretty), chars_inj.
Qed.

Local Open Scope string_scope.

(** ** Further properties of the notebook kernel *)

Ltac run_cells :=
  unfold variant_analysis, cell_IDs, cell_trio_df, cell_referenceRegion, cell_register,
    cell_child, cell_parents, cell_names, cell_unpersist;
  unfold mbind, cell_bind, load, assign, from_view, cache, unpersist,
    createOrReplaceTempView; simpl;
  repeat (simplify_map_eq; simpl).

(** The kernel the cells leave behind. *)
Lemma variant_analysis_final ids g k :
  globals k !! "genotypes_df" = Some (VGenotypes g) →
  variant_analysis ids k = inr ((), mkKernel
    (<["denovo_snps" := VStrings (denovo_snps_of ids g)]>
     (<["snp_names" := VNameLists (snp_names_of (groupBy_names_count (filtered2_of ids g)))]>
     (<["snp_counts" := VCounts (groupBy_names_count (filtered2_of ids g))]>
     (<["filtered2" := VTrios (filtered2_of ids g)]>
     (<["filtered1" := VTrios (sql_filtered1 (trios_of ids g))]>
     (<["collected_sites" := VSites (collected_sites_of ids g)]>
     (<["alternate_variant_sites" := VSites (collected_sites_of ids g)]>
     (<["trios_with_referenceRegion" := VTrios (trios_of ids g)]>
     (<["trio_df" := VGenotypes (filter_trio ids g)]>
     (<["IDs" := VStrings ids]> (globals k)))))))))))
    (<["trios" := trios_of ids g]> (tempViews k))
    (filter (λ d, d ≠ filter_trio ids g) (filter_trio ids g :: storage k))).
Proof.
  intros Hg. destruct k as [gl tv st]. simpl in Hg. run_cells. reflexivity.
Qed.


Lemma unpersist_cached (t : list GenotypeRecord) st :
  filter (λ d, d ≠ t) (t :: st) = filter (λ d, d ≠ t) st.
Proof. rewrite filter_cons_False; [done|]. intros Hne. by apply Hne. Qed.




(** X10.  Running the cells a second time changes nothing: from the kernel
    the first run leaves, the second run ends in that same kernel. *)
Theorem variant_analysis_rerun ids g k :
  globals k !! "genotypes_df" = Some (VGenotypes g) →
  ∃ k', variant_analysis ids k = inr ((), k')
        ∧ variant_analysis ids k' = inr ((), k').
Proof.
  intros Hg. eexists. split; [by apply variant_analysis_final|].
  rewrite (variant_analysis_final ids g) by (simpl; by simplify_map_eq).
  simpl. do 2 f_equal. f_equal.
  - apply map_eq. intros x. rewrite !lookup_insert.
    repeat (case_decide; [done|]). done.
  - by rewrite insert_insert_eq.
  - rewrite !unpersist_cached. rewrite list_filter_filter.
    apply list_filter_iff. intros d. tauto.
Qed.

Lemma variant_analysis_rerun_witness :
  let g := [call "NA19685" ["REF"; "ALT"] ["rs1"]; call "NA19660" ["REF"; "REF"] ["rs1"]] in
  ∃ k', variant_analysis IDs (loaded g) = inr ((), k')
        ∧ variant_analysis IDs k' = inr ((), k').
Proof.
  cbv zeta.
  apply (variant_analysis_rerun IDs
           [call "NA19685" ["REF"; "ALT"] ["rs1"]; call "NA19660" ["REF"; "REF"] ["rs1"]]
           (loaded _)).
  reflexivity.
Defined.

(** ** Further properties of the install script *)

(** X12.  The script reports the first check that fails, and only that one:
    a missing virtualenv (also when Python prints nothing) whatever the
    other two, then an empty [SPARK_HOME], then a missing [npm]. *)
Theorem install_first_failed_check e :
  (¬ Install.virtualenv_active e →
   Install.script e = ([Install.echo "virtualenv is not active"], Some 1))
  ∧ (Install.virtualenv_active e → ¬ Install.spark_home_set e →
     Install.script e = ([Install.echo "You need to set SPARK_HOME"], Some 1))
  ∧ (Install.virtualenv_active e → Install.spark_home_set e → ¬ Install.npm_installed e →
     Install.script e = ([Install.echo "You need to install node.js"], Some 1)).
Proof.
  unfold Install.script, Install.virtualenv_active, Install.spark_home_set,
    Install.npm_installed, Install.INVENV, Install.arith, Install.test_x.
  split_and!.
  - intros Hv. by destruct (Install.python_probe e) as [[|]|].
  - intros -> Hs. simpl. apply dec_stable in Hs. by rewrite decide_True.
  - intros -> Hs Hn. simpl. rewrite decide_False by done.
    destruct (decide (Install.command_v_npm e = "")) as [|Hc]; [done|].
    destruct (Install.executable e (Install.command_v_npm e)); [|done].
    by destruct Hn.
Qed.

Lemma install_first_failed_check_witness :
  Install.script (Install.mkEnv None "" "" (λ _, false) "/root/mango" "" "" "")
  = ([Install.echo "virtualenv is not active"], Some 1).
Proof.
  apply (install_first_failed_check
           (Install.mkEnv None "" "" (λ _, false) "/root/mango" "" "" "")).
  unfold Install.virtualenv_active. simpl. discriminate.
Defined.
